(** * The Sail arena allocator ([lib/nostd/sail_arena.c])

    A shallow embedding of the bump allocator used by Sail's freestanding
    runtime, together with the properties its specification states.

    Machine integers.  [size_t] and [uintptr_t] are unsigned integers of the
    same width [w]; a value is a [Z] in [[0, 2^w)] and every C operation on
    them is written with its wrap-around ([uadd], [usub]).  A pointer is the
    address it holds, and [&buffer[i]] is the address [buffer + i] (the
    element type is [unsigned char]).

    State.  The three file-scope variables of the translation unit, and the
    memory they point into: no function of the unit stores through a
    pointer, which the model makes visible by threading [heap] unchanged.

    Results.  [sail_malloc_align] has two [return] statements; [return ptr]
    is modelled as [Some ptr] and [return NULL] as [None]; [c_return] is
    the address the caller receives in either case.  For a buffer that is
    a real object the pointer of [return ptr] is never the null pointer
    ([returned_pointer_not_null]), so a caller tells the two apart as the
    model does; for a buffer at address 0, or one that ends at the top of
    the address space, [return ptr] can hand the caller the null pointer. *)

From Stdlib Require Import ZArith Lia List Bool.
Import ListNotations.
Local Open Scope Z_scope.

(** ** Machine state *)

Record state : Type := mkState {
  sail_arena_buffer : Z;          (* unsigned char *sail_arena_buffer *)
  sail_arena_length : Z;          (* size_t sail_arena_length *)
  sail_arena_offset : Z;          (* size_t sail_arena_offset *)
  heap : Z -> Byte.byte           (* the bytes of memory, by address *)
}.

(** The null pointer, as an address. *)
Definition NULL : Z := 0.

(** What the caller of [sail_malloc_align] receives: the pointer of
    [return ptr], or the null pointer. *)
Definition c_return (r : option Z) : Z :=
  match r with
  | Some ptr => ptr
  | None => NULL
  end.

Definition set_offset (st : state) (o : Z) : state :=
  mkState (sail_arena_buffer st) (sail_arena_length st) o (heap st).

(** ** The functions of [sail_arena.c] *)

Section Arena.

(** Width in bits of [size_t] and [uintptr_t]. *)
Variable w : Z.

Definition modulus : Z := 2 ^ w.
Definition wrap (x : Z) : Z := x mod modulus.

(** Unsigned addition and subtraction at width [w]. *)
Definition uadd (a b : Z) : Z := wrap (a + b).
Definition usub (a b : Z) : Z := wrap (a - b).

Definition sail_arena_init (st : state) (buffer length : Z) : state :=
  mkState buffer length 0 (heap st).

Definition sail_arena_reset (st : state) : state :=
  set_offset st 0.

Definition sail_malloc_align (st : state) (size align : Z) : option Z * state :=
  let offset := uadd (sail_arena_buffer st) (sail_arena_offset st) in
  let modulo := Z.land offset (usub align 1) in
  let offset := if negb (modulo =? 0)
                then uadd offset (usub align modulo)
                else offset in
  let offset := usub offset (sail_arena_buffer st) in
  if uadd offset size <=? sail_arena_length st then
    let ptr := uadd (sail_arena_buffer st) offset in
    (Some ptr, set_offset st (uadd offset size))
  else
    (None, st).

(** [SAIL_ARENA_ALIGNMENT] is taken from the build when it is predefined
    there ([Some d]) and is 4 otherwise. *)
Definition SAIL_ARENA_ALIGNMENT (predefined : option Z) : Z :=
  match predefined with
  | Some d => d
  | None => 4
  end.

Definition sail_malloc (build : option Z) (st : state) (size : Z)
  : option Z * state :=
  sail_malloc_align st size (SAIL_ARENA_ALIGNMENT build).

Definition sail_free (st : state) (ptr : Z) : state := st.

(** The value of the local [offset] of [sail_malloc_align] when it reaches
    the bounds test: the arena offset after padding, relative to the
    buffer. *)
Definition rounded_offset (st : state) (align : Z) : Z :=
  let offset := uadd (sail_arena_buffer st) (sail_arena_offset st) in
  let modulo := Z.land offset (usub align 1) in
  let offset := if negb (modulo =? 0)
                then uadd offset (usub align modulo)
                else offset in
  usub offset (sail_arena_buffer st).

(** Where a returned pointer lies, counted in bytes from the buffer base. *)
Definition region_start (st : state) (ptr : Z) : Z :=
  usub ptr (sail_arena_buffer st).

(** *** Sequences of calls *)

Inductive call : Type :=
| Init (buffer length : Z)
| Reset
| MallocAlign (size align : Z)
| Malloc (size : Z)
| Free (ptr : Z).

Definition exec (build : option Z) (st : state) (c : call) : state :=
  match c with
  | Init buffer length => sail_arena_init st buffer length
  | Reset => sail_arena_reset st
  | MallocAlign size align => snd (sail_malloc_align st size align)
  | Malloc size => snd (sail_malloc build st size)
  | Free ptr => sail_free st ptr
  end.

Definition run (build : option Z) (st : state) (cs : list call) : state :=
  fold_left (exec build) cs st.

(** The regions handed out by a sequence of [sail_malloc_align] calls given
    as (size, align) pairs: one (start, size) pair per call that returned a
    pointer, in call order; a call that returned [NULL] contributes none. *)
Fixpoint regions_of (st : state) (reqs : list (Z * Z)) : list (Z * Z) :=
  match reqs with
  | [] => []
  | (size, align) :: rest =>
      match sail_malloc_align st size align with
      | (Some ptr, st') => (region_start st ptr, size) :: regions_of st' rest
      | (None, st') => regions_of st' rest
      end
  end.

(** Whether every call of the sequence returned a pointer. *)
Fixpoint all_succeed (st : state) (reqs : list (Z * Z)) : bool :=
  match reqs with
  | [] => true
  | (size, align) :: rest =>
      match sail_malloc_align st size align with
      | (Some _, st') => all_succeed st' rest
      | (None, _) => false
      end
  end.

(** A sequence of [sail_malloc] calls: the values returned, in call order,
    and the state after the last call. *)
Fixpoint sail_malloc_seq (build : option Z) (st : state) (sizes : list Z)
  : list (option Z) * state :=
  match sizes with
  | [] => ([], st)
  | size :: rest =>
      let (r, st') := sail_malloc build st size in
      let (rs, st'') := sail_malloc_seq build st' rest in
      (r :: rs, st'')
  end.

End Arena.

(** ** The vocabulary of the specification *)

(** Invariant of the data model. *)
Definition arena_inv (st : state) : Prop :=
  0 <= sail_arena_offset st <= sail_arena_length st.

(** A call whose arguments are values of their C types, as far as the
    invariant depends on it: a [size_t] length is not negative. *)
Definition call_typed (c : call) : Prop :=
  match c with
  | Init _ length => 0 <= length
  | _ => True
  end.

(** Rounding an address up to the next multiple of [alignment], over the
    integers. *)
Definition round_up (address alignment : Z) : Z :=
  if address mod alignment =? 0
  then address
  else address + (alignment - address mod alignment).

(** The rounded offset of the specification: round the absolute address of
    the next free byte and convert back to a buffer-relative offset. *)
Definition spec_rounded_offset (st : state) (alignment : Z) : Z :=
  round_up (sail_arena_buffer st + sail_arena_offset st) alignment
  - sail_arena_buffer st.

(** A region is a (start, size) pair standing for [[start, start + size)]. *)
Definition in_region (x : Z) (r : Z * Z) : Prop :=
  fst r <= x < fst r + snd r.

Definition overlap (r1 r2 : Z * Z) : Prop :=
  exists x, in_region x r1 /\ in_region x r2.

Definition within (length : Z) (r : Z * Z) : Prop :=
  0 <= fst r /\ fst r + snd r <= length.

(** [r1] ends where [r2] starts, or earlier. *)
Definition before (r1 r2 : Z * Z) : Prop :=
  fst r1 + snd r1 <= fst r2.

(** No two regions of the list share a byte. *)
Definition pairwise_disjoint (rs : list (Z * Z)) : Prop :=
  ForallOrdPairs (fun r1 r2 => ~ overlap r1 r2) rs.

(** A request that cannot wrap in an arena of the given length. *)
Definition request_fits (w length : Z) (req : Z * Z) : Prop :=
  0 <= fst req /\
  exists k, 0 <= k < w /\ snd req = 2 ^ k /\
            length + snd req + fst req <= modulus w.

(** A call other than [sail_arena_init]. *)
Definition not_init (c : call) : Prop :=
  match c with
  | Init _ _ => False
  | _ => True
  end.

(** The number of bytes in a list of regions. *)
Definition total_size (rs : list (Z * Z)) : Z :=
  fold_right (fun r acc => snd r + acc) 0 rs.

(** The addresses of regions of the given sizes laid end to end from
    address [p]. *)
Fixpoint packed (p : Z) (sizes : list Z) : list Z :=
  match sizes with
  | [] => []
  | size :: rest => p :: packed (p + size) rest
  end.

Definition sum_sizes (sizes : list Z) : Z := fold_right Z.add 0 sizes.

(** A concrete machine for the examples: 64-bit words, zeroed memory. *)
Definition zero_heap : Z -> Byte.byte := fun _ => Byte.x00.

(** Closed arithmetic facts about the concrete machine, by evaluation. *)
Ltac by_evaluation :=
  vm_compute; repeat split; first [reflexivity | discriminate].

(** * Properties *)

(** ** Arithmetic at width [w] *)

Section Words.

Variable w : Z.
Hypothesis w_pos : 0 < w.

Lemma modulus_pos : 0 < modulus w.
Proof. unfold modulus. apply Z.pow_pos_nonneg; lia. Qed.

Lemma wrap_range (x : Z) : 0 <= wrap w x < modulus w.
Proof. unfold wrap. apply Z.mod_pos_bound, modulus_pos. Qed.

Lemma wrap_small (x : Z) : 0 <= x < modulus w -> wrap w x = x.
Proof. unfold wrap. apply Z.mod_small. Qed.

Lemma pow2_pos (k : Z) : 0 <= k -> 0 < 2 ^ k.
Proof. intros. apply Z.pow_pos_nonneg; lia. Qed.

Lemma pow2_lt_modulus (k : Z) : 0 <= k < w -> 2 ^ k < modulus w.
Proof. intros. unfold modulus. apply Z.pow_lt_mono_r; lia. Qed.

Lemma modulus_split (k : Z) :
  0 <= k < w -> modulus w = 2 ^ k * 2 ^ (w - k).
Proof.
  intros. unfold modulus. rewrite <- Z.pow_add_r by lia. f_equal. lia.
Qed.

(** Reducing modulo [2^w] does not change residues modulo a smaller power
    of two. *)
Lemma wrap_mod_pow2 (k x : Z) :
  0 <= k < w -> wrap w x mod 2 ^ k = x mod 2 ^ k.
Proof.
  intros Hk. unfold wrap. rewrite (modulus_split k Hk).
  pose proof (pow2_pos k ltac:(lia)).
  pose proof (pow2_pos (w - k) ltac:(lia)).
  rewrite Z.rem_mul_r by lia.
  rewrite (Z.mul_comm (2 ^ k)), Z.mod_add by lia.
  apply Z.mod_mod. lia.
Qed.

(** [offset & (align - 1)] is the residue modulo [align]. *)
Lemma mask_is_mod (k a : Z) :
  0 <= k < w -> Z.land a (usub w (2 ^ k) 1) = a mod 2 ^ k.
Proof.
  intros Hk. unfold usub.
  pose proof (pow2_pos k ltac:(lia)).
  pose proof (pow2_lt_modulus k Hk).
  rewrite wrap_small by lia.
  replace (2 ^ k - 1) with (Z.ones k) by (rewrite Z.ones_equiv; lia).
  apply Z.land_ones. lia.
Qed.

Lemma uadd_wrap_l (a b : Z) : uadd w (wrap w a) b = wrap w (a + b).
Proof. unfold uadd, wrap. apply Z.add_mod_idemp_l. pose proof modulus_pos; lia. Qed.

Lemma uadd_wrap_r (a b : Z) : uadd w a (wrap w b) = wrap w (a + b).
Proof. unfold uadd, wrap. apply Z.add_mod_idemp_r. pose proof modulus_pos; lia. Qed.

Lemma usub_wrap_l (a b : Z) : usub w (wrap w a) b = wrap w (a - b).
Proof. unfold usub, wrap. apply Zminus_mod_idemp_l. Qed.

(** ** The rounding step *)

Lemma sail_malloc_align_unfold (st : state) (size align : Z) :
  sail_malloc_align w st size align =
  let r := rounded_offset w st align in
  if uadd w r size <=? sail_arena_length st
  then (Some (uadd w (sail_arena_buffer st) r), set_offset st (uadd w r size))
  else (None, st).
Proof. reflexivity. Qed.

Lemma round_up_multiple (a k : Z) : 0 <= k -> round_up a (2 ^ k) mod 2 ^ k = 0.
Proof.
  intros Hk. pose proof (pow2_pos k Hk) as Hp. unfold round_up.
  destruct (a mod 2 ^ k =? 0) eqn:E.
  - apply Z.eqb_eq in E. exact E.
  - rewrite (Z.div_mod a (2 ^ k)) at 1 by lia.
    replace (2 ^ k * (a / 2 ^ k) + a mod 2 ^ k + (2 ^ k - a mod 2 ^ k))
      with ((a / 2 ^ k + 1) * 2 ^ k) by ring.
    apply Z.mod_mul. lia.
Qed.

Lemma round_up_bounds (a k : Z) :
  0 <= k -> a <= round_up a (2 ^ k) < a + 2 ^ k.
Proof.
  intros Hk. pose proof (pow2_pos k Hk) as Hp. unfold round_up.
  pose proof (Z.mod_pos_bound a (2 ^ k) Hp).
  destruct (a mod 2 ^ k =? 0) eqn:E.
  - lia.
  - apply Z.eqb_neq in E. lia.
Qed.

Lemma spec_rounded_offset_bounds (st : state) (k : Z) :
  0 <= k ->
  sail_arena_offset st <= spec_rounded_offset st (2 ^ k)
                       < sail_arena_offset st + 2 ^ k.
Proof.
  intros Hk. unfold spec_rounded_offset.
  pose proof (round_up_bounds (sail_arena_buffer st + sail_arena_offset st) k Hk).
  lia.
Qed.

(** The machine computation of lines 24 to 30 is the rounding of the
    specification, reduced modulo [2^w]. *)
Lemma rounded_offset_spec (st : state) (k : Z) :
  0 <= k < w ->
  rounded_offset w st (2 ^ k) = wrap w (spec_rounded_offset st (2 ^ k)).
Proof.
  intros Hk. unfold rounded_offset, spec_rounded_offset, round_up.
  rewrite mask_is_mod by exact Hk.
  set (b := sail_arena_buffer st). set (o := sail_arena_offset st).
  assert (Ha : uadd w b o mod 2 ^ k = (b + o) mod 2 ^ k)
    by (apply wrap_mod_pow2; exact Hk).
  rewrite !Ha.
  destruct ((b + o) mod 2 ^ k =? 0); cbn [negb].
  - apply usub_wrap_l.
  - change (usub w (2 ^ k) ((b + o) mod 2 ^ k))
      with (wrap w (2 ^ k - (b + o) mod 2 ^ k)).
    rewrite uadd_wrap_r.
    change (wrap w (uadd w b o + (2 ^ k - (b + o) mod 2 ^ k)))
      with (uadd w (wrap w (b + o)) (2 ^ k - (b + o) mod 2 ^ k)).
    rewrite uadd_wrap_l. apply usub_wrap_l.
Qed.

(** When the rounded offset of the specification is representable, the
    machine computes exactly it. *)
Lemma rounded_offset_exact (st : state) (k : Z) :
  0 <= k < w ->
  0 <= sail_arena_offset st ->
  spec_rounded_offset st (2 ^ k) < modulus w ->
  rounded_offset w st (2 ^ k) = spec_rounded_offset st (2 ^ k).
Proof.
  intros Hk Ho Hr. rewrite rounded_offset_spec by exact Hk.
  apply wrap_small.
  pose proof (spec_rounded_offset_bounds st k ltac:(lia)). lia.
Qed.

(** ** The two outcomes of [sail_malloc_align] *)

Lemma set_offset_same (st : state) : set_offset st (sail_arena_offset st) = st.
Proof. destruct st; reflexivity. Qed.

(** The failure path: whenever the bounds test of line 32 is false the call
    returns [NULL] and the state is untouched. *)
Lemma sail_malloc_align_failure (st : state) (size align : Z) :
  (uadd w (rounded_offset w st align) size <=? sail_arena_length st) = false ->
  sail_malloc_align w st size align = (None, st).
Proof. intros E. rewrite sail_malloc_align_unfold. cbv zeta. rewrite E. reflexivity. Qed.

(** The success path, for a request whose end is representable. *)
Lemma sail_malloc_align_fits (st : state) (size align k : Z) :
  align = 2 ^ k -> 0 <= k < w ->
  0 <= sail_arena_offset st -> 0 <= size ->
  sail_arena_length st < modulus w ->
  spec_rounded_offset st align + size <= sail_arena_length st ->
  sail_malloc_align w st size align =
  (Some (uadd w (sail_arena_buffer st) (spec_rounded_offset st align)),
   set_offset st (spec_rounded_offset st align + size)).
Proof.
  intros -> Hk Ho Hs Hl Hfit.
  pose proof (spec_rounded_offset_bounds st k ltac:(lia)) as Hr.
  rewrite sail_malloc_align_unfold. cbv zeta.
  rewrite rounded_offset_exact by lia.
  unfold uadd at 1 3. rewrite !wrap_small by lia.
  destruct (Z.leb_spec (spec_rounded_offset st (2 ^ k) + size)
                       (sail_arena_length st)); [reflexivity | lia].
Qed.

(** Out of space, for a request whose end is representable. *)
Lemma sail_malloc_align_no_space (st : state) (size align k : Z) :
  align = 2 ^ k -> 0 <= k < w ->
  0 <= sail_arena_offset st -> 0 <= size ->
  spec_rounded_offset st align + size < modulus w ->
  sail_arena_length st < spec_rounded_offset st align + size ->
  sail_malloc_align w st size align = (None, st).
Proof.
  intros -> Hk Ho Hs Hrep Hbig.
  pose proof (spec_rounded_offset_bounds st k ltac:(lia)) as Hr.
  apply sail_malloc_align_failure.
  rewrite rounded_offset_exact by lia.
  unfold uadd. rewrite wrap_small by lia.
  apply Z.leb_gt. exact Hbig.
Qed.

Lemma region_start_uadd (st : state) (r : Z) :
  0 <= r < modulus w ->
  region_start w st (uadd w (sail_arena_buffer st) r) = r.
Proof.
  intros Hr. unfold region_start, uadd. rewrite usub_wrap_l.
  replace (sail_arena_buffer st + r - sail_arena_buffer st) with r by ring.
  apply wrap_small. exact Hr.
Qed.

(** With a buffer that is a real object (not at address 0, its end inside
    the address space), a pointer returned for a request that fits is the
    plain sum of base and offset, and is not the null pointer. *)
Lemma returned_pointer_not_null (st : state) (size k : Z) :
  0 <= k < w -> arena_inv st -> 0 <= size ->
  0 < sail_arena_buffer st ->
  sail_arena_buffer st + sail_arena_length st < modulus w ->
  spec_rounded_offset st (2 ^ k) + size <= sail_arena_length st ->
  exists ptr st',
    sail_malloc_align w st size (2 ^ k) = (Some ptr, st') /\
    ptr = sail_arena_buffer st + spec_rounded_offset st (2 ^ k) /\
    ptr <> NULL.
Proof.
  intros Hk [Ho Hol] Hs Hb Hend Hfit.
  pose proof (spec_rounded_offset_bounds st k ltac:(lia)) as Hr.
  eexists _, _. split.
  - apply (sail_malloc_align_fits st size (2 ^ k) k); try reflexivity; lia.
  - unfold uadd, NULL. rewrite wrap_small by lia. lia.
Qed.

(** A zero-size request, for any alignment, in terms of the offset the
    machine computed. *)
Lemma sail_malloc_align_zero_size_machine (st : state) (align : Z) :
  rounded_offset w st align <= sail_arena_length st ->
  sail_malloc_align w st 0 align =
  (Some (uadd w (sail_arena_buffer st) (rounded_offset w st align)),
   set_offset st (rounded_offset w st align)).
Proof.
  intros Hfit. rewrite sail_malloc_align_unfold. cbv zeta.
  assert (E : uadd w (rounded_offset w st align) 0 = rounded_offset w st align).
  { unfold uadd. rewrite Z.add_0_r. unfold rounded_offset, usub, wrap.
    apply Z.mod_mod. pose proof modulus_pos. lia. }
  rewrite E. apply Z.leb_le in Hfit. rewrite Hfit. reflexivity.
Qed.

(** ** Claims about a single call *)

(** C2: every pointer returned by [sail_malloc_align] for a power-of-two
    alignment is a multiple of that alignment. *)
Theorem sail_malloc_align_aligned (st st' : state) (size k ptr : Z) :
  0 <= k < w ->
  sail_malloc_align w st size (2 ^ k) = (Some ptr, st') ->
  ptr mod 2 ^ k = 0.
Proof.
  intros Hk. rewrite sail_malloc_align_unfold. cbv zeta.
  destruct (_ <=? _); [ | discriminate ].
  intros H. injection H as <- _.
  rewrite rounded_offset_spec by exact Hk.
  rewrite uadd_wrap_r by exact w_pos.
  rewrite wrap_mod_pow2 by exact Hk.
  unfold spec_rounded_offset.
  match goal with |- (?b + (?r - ?b)) mod _ = 0 =>
    replace (b + (r - b)) with r by ring end.
  apply round_up_multiple. lia.
Qed.

(** C4: from a state with [0 <= offset <= length], a request with a
    power-of-two alignment whose rounded offset plus size is at most
    [length] succeeds: it returns the address of the byte at the rounded
    offset, and in the state it leaves the offset is rounded offset plus
    size while buffer, length and memory are as before. *)
Theorem sail_malloc_align_success (st : state) (size k : Z) :
  0 <= k < w ->
  arena_inv st ->
  sail_arena_length st < modulus w ->
  0 <= size ->
  spec_rounded_offset st (2 ^ k) + size <= sail_arena_length st ->
  let r := spec_rounded_offset st (2 ^ k) in
  let ptr := uadd w (sail_arena_buffer st) r in
  sail_malloc_align w st size (2 ^ k) = (Some ptr, set_offset st (r + size)) /\
  region_start w st ptr = r /\
  rounded_offset w st (2 ^ k) = r /\
  fst (sail_malloc_align w st size (2 ^ k)) = Some ptr /\
  sail_arena_offset (snd (sail_malloc_align w st size (2 ^ k))) = r + size /\
  sail_arena_buffer (snd (sail_malloc_align w st size (2 ^ k)))
    = sail_arena_buffer st /\
  sail_arena_length (snd (sail_malloc_align w st size (2 ^ k)))
    = sail_arena_length st /\
  heap (snd (sail_malloc_align w st size (2 ^ k))) = heap st.
Proof.
  intros Hk [Ho Hol] Hl Hs Hfit r ptr. subst r ptr.
  pose proof (spec_rounded_offset_bounds st k ltac:(lia)) as Hr.
  assert (E : sail_malloc_align w st size (2 ^ k) =
              (Some (uadd w (sail_arena_buffer st)
                            (spec_rounded_offset st (2 ^ k))),
               set_offset st (spec_rounded_offset st (2 ^ k) + size)))
    by (apply (sail_malloc_align_fits st size (2 ^ k) k); try reflexivity; lia).
  split; [exact E | ].
  split; [apply region_start_uadd; lia | ].
  split; [apply rounded_offset_exact; lia | ].
  rewrite E. cbn [fst snd set_offset sail_arena_offset sail_arena_buffer
                  sail_arena_length heap].
  repeat apply conj; reflexivity.
Qed.

(** C9: in an arena whose buffer is a real object (not at address 0, its
    end below [2^w]), a zero-size request with a power-of-two alignment
    succeeds whenever the rounded offset is at most [length]: the caller
    receives the address at the rounded offset, which is not the null
    pointer, and the offset becomes the rounded offset.  When the arena is
    exactly full and that address is already aligned, the pointer is the
    address one past the last byte of the buffer and the state is left as
    it is. *)
Theorem sail_malloc_align_zero_size (st : state) (k : Z) :
  0 <= k < w ->
  arena_inv st ->
  0 < sail_arena_buffer st ->
  sail_arena_buffer st + sail_arena_length st < modulus w ->
  spec_rounded_offset st (2 ^ k) <= sail_arena_length st ->
  let r := spec_rounded_offset st (2 ^ k) in
  fst (sail_malloc_align w st 0 (2 ^ k)) = Some (sail_arena_buffer st + r) /\
  c_return (fst (sail_malloc_align w st 0 (2 ^ k))) <> NULL /\
  sail_arena_offset (snd (sail_malloc_align w st 0 (2 ^ k))) = r /\
  sail_arena_buffer (snd (sail_malloc_align w st 0 (2 ^ k)))
    = sail_arena_buffer st /\
  sail_arena_length (snd (sail_malloc_align w st 0 (2 ^ k)))
    = sail_arena_length st /\
  heap (snd (sail_malloc_align w st 0 (2 ^ k))) = heap st /\
  (sail_arena_offset st = sail_arena_length st ->
   (sail_arena_buffer st + sail_arena_offset st) mod 2 ^ k = 0 ->
   fst (sail_malloc_align w st 0 (2 ^ k))
     = Some (sail_arena_buffer st + sail_arena_length st) /\
   snd (sail_malloc_align w st 0 (2 ^ k)) = st).
Proof.
  intros Hk [Ho Hol] Hb Hend Hfit r. subst r.
  pose proof (spec_rounded_offset_bounds st k ltac:(lia)) as Hr.
  assert (E : sail_malloc_align w st 0 (2 ^ k) =
    (Some (sail_arena_buffer st + spec_rounded_offset st (2 ^ k)),
     set_offset st (spec_rounded_offset st (2 ^ k)))).
  { rewrite (sail_malloc_align_fits st 0 (2 ^ k) k); try reflexivity; try lia.
    rewrite Z.add_0_r. unfold uadd. rewrite wrap_small by lia. reflexivity. }
  rewrite E.
  cbn [fst snd c_return set_offset sail_arena_offset sail_arena_buffer
       sail_arena_length heap].
  repeat apply conj; try reflexivity.
  - unfold NULL. lia.
  - intros Hfull Hal.
    assert (R : spec_rounded_offset st (2 ^ k) = sail_arena_offset st).
    { unfold spec_rounded_offset, round_up. rewrite Hal. cbn [Z.eqb]. ring. }
    rewrite R. split; [rewrite Hfull; reflexivity | ].
    apply (set_offset_same st).
Qed.

(** X13: with alignment 1 the rounding step is the identity: a call that
    returns a pointer returns the address at the current offset, and the
    new offset is the old offset plus [size] reduced modulo [2^w], which
    is the plain sum whenever that sum is representable. *)
Theorem sail_malloc_align_one (st st' : state) (size ptr : Z) :
  arena_inv st ->
  sail_arena_length st < modulus w ->
  sail_malloc_align w st size 1 = (Some ptr, st') ->
  rounded_offset w st 1 = sail_arena_offset st /\
  ptr = uadd w (sail_arena_buffer st) (sail_arena_offset st) /\
  region_start w st ptr = sail_arena_offset st /\
  sail_arena_offset st' = uadd w (sail_arena_offset st) size /\
  (0 <= sail_arena_offset st + size < modulus w ->
   sail_arena_offset st' = sail_arena_offset st + size).
Proof.
  intros [Ho Hol] Hl.
  assert (R : rounded_offset w st 1 = sail_arena_offset st).
  { change 1 with (2 ^ 0). rewrite rounded_offset_exact; try lia.
    - unfold spec_rounded_offset, round_up. rewrite Z.mod_1_r. cbn [Z.eqb]. ring.
    - unfold spec_rounded_offset, round_up. rewrite Z.mod_1_r. cbn [Z.eqb]. lia. }
  rewrite sail_malloc_align_unfold. cbv zeta. rewrite R.
  destruct (_ <=? _); [ | discriminate ].
  intros H. injection H as <- <-. cbn [sail_arena_offset set_offset].
  repeat split.
  - apply region_start_uadd. lia.
  - intros Hrep. unfold uadd. apply wrap_small. exact Hrep.
Qed.

(** ** Claims about the other entry points *)

(** C6: [sail_arena_reset] stores 0 in the offset and leaves the buffer
    pointer, the length and every byte of memory as they were. *)
Theorem sail_arena_reset_frame (st : state) :
  sail_arena_offset (sail_arena_reset st) = 0 /\
  sail_arena_buffer (sail_arena_reset st) = sail_arena_buffer st /\
  sail_arena_length (sail_arena_reset st) = sail_arena_length st /\
  heap (sail_arena_reset st) = heap st.
Proof. repeat split. Qed.

(** C7: [sail_malloc] is [sail_malloc_align] at the build's default
    alignment, result and final state alike, and that default is 4 when the
    build does not set it. *)
Theorem sail_malloc_default_alignment (build : option Z) (st : state) (size : Z) :
  sail_malloc w build st size =
    sail_malloc_align w st size (SAIL_ARENA_ALIGNMENT build) /\
  SAIL_ARENA_ALIGNMENT None = 4.
Proof. split; reflexivity. Qed.

(** ** The invariant of the data model *)

Lemma sail_malloc_align_inv (st : state) (size align : Z) :
  arena_inv st -> arena_inv (snd (sail_malloc_align w st size align)).
Proof.
  intros Hinv. rewrite sail_malloc_align_unfold. cbv zeta.
  destruct (_ <=? _) eqn:E; cbn [snd]; [ | exact Hinv ].
  apply Z.leb_le in E. unfold arena_inv. cbn [sail_arena_offset sail_arena_length set_offset].
  split; [ | exact E ].
  apply (wrap_range (rounded_offset w st align + size)).
Qed.

Lemma exec_inv (build : option Z) (st : state) (c : call) :
  call_typed c -> arena_inv st -> arena_inv (exec w build st c).
Proof.
  destruct c as [buffer length | | size align | size | ptr]; cbn [exec call_typed].
  - intros Hl _. unfold arena_inv. cbn. lia.
  - intros _ [Ho Hol]. unfold arena_inv. cbn. lia.
  - intros _. apply sail_malloc_align_inv.
  - intros _. apply sail_malloc_align_inv.
  - intros _ Hinv. exact Hinv.
Qed.

Lemma run_inv (build : option Z) (cs : list call) :
  forall st, Forall call_typed cs -> arena_inv st -> arena_inv (run w build st cs).
Proof.
  unfold run. induction cs as [ | c cs IH]; intros st Hty Hinv; cbn [fold_left].
  - exact Hinv.
  - inversion Hty as [ | ? ? Hc Hcs]; subst.
    apply IH; [exact Hcs | apply exec_inv; assumption].
Qed.

(** C5: [0 <= offset <= length] holds after [sail_arena_init], every
    operation preserves it (for every size and alignment, with the
    arithmetic taken modulo [2^w]), and so it holds after every sequence of
    operations that follows an initialisation. *)
Theorem arena_inv_invariant (build : option Z) :
  (forall st buffer length,
      0 <= length -> arena_inv (sail_arena_init st buffer length)) /\
  (forall st c,
      call_typed c -> arena_inv st -> arena_inv (exec w build st c)) /\
  (forall st buffer length cs,
      0 <= length -> Forall call_typed cs ->
      arena_inv (run w build (sail_arena_init st buffer length) cs)).
Proof.
  assert (Hinit : forall st buffer length,
             0 <= length -> arena_inv (sail_arena_init st buffer length)).
  { intros st buffer length Hl. unfold arena_inv. cbn. lia. }
  split; [exact Hinit | split ].
  - intros st c. apply exec_inv.
  - intros st buffer length cs Hl Hty. apply run_inv; [exact Hty | apply Hinit, Hl].
Qed.

(** ** Sequences of allocations whose arithmetic does not wrap

    For requests that a [w]-bit machine can place without wrap-around
    ([request_fits]) the regions handed out are laid out one after the
    other inside the buffer.  The closed examples further down show that
    the restriction is needed. *)

Lemma before_not_overlap (r1 r2 : Z * Z) : before r1 r2 -> ~ overlap r1 r2.
Proof.
  unfold before, overlap, in_region. intros Hb [x [H1 H2]]. lia.
Qed.

Lemma regions_of_layout (reqs : list (Z * Z)) :
  forall st,
    arena_inv st ->
    sail_arena_length st < modulus w ->
    Forall (request_fits w (sail_arena_length st)) reqs ->
    Forall (fun r => sail_arena_offset st <= fst r /\
                     fst r + snd r <= sail_arena_length st)
           (regions_of w st reqs) /\
    ForallOrdPairs before (regions_of w st reqs).
Proof.
  induction reqs as [ | [size align] reqs IH]; intros st Hinv Hl Hfits.
  - split; constructor.
  - inversion Hfits as [ | ? ? Hreq Hrest]; subst.
    destruct Hreq as [Hs [k [Hk [Hal Hrep]]]]. cbn [fst snd] in Hs, Hal, Hrep.
    destruct Hinv as [Ho Hol].
    pose proof (spec_rounded_offset_bounds st k ltac:(lia)) as Hr.
    rewrite <- Hal in Hr.
    cbn [regions_of].
    destruct (Z_le_gt_dec (spec_rounded_offset st align + size)
                          (sail_arena_length st)) as [Hfit | Hbig].
    + rewrite (sail_malloc_align_fits st size align k) by (assumption || lia).
      rewrite region_start_uadd by lia.
      destruct (IH (set_offset st (spec_rounded_offset st align + size)))
        as [Hin Hord].
      * unfold arena_inv. cbn. lia.
      * exact Hl.
      * exact Hrest.
      * cbn [sail_arena_offset sail_arena_length set_offset] in Hin.
        split.
        -- constructor; [cbn [fst snd]; lia | ].
           eapply Forall_impl; [ | exact Hin]. cbn beta. intros r Hr'. lia.
        -- constructor; [ | exact Hord].
           eapply Forall_impl; [ | exact Hin]. cbn beta.
           intros r Hr'. unfold before. cbn [fst snd]. lia.
    + rewrite (sail_malloc_align_no_space st size align k) by (assumption || lia).
      apply IH; [split; assumption | exact Hl | exact Hrest].
Qed.

Lemma ordpairs_before_disjoint (rs : list (Z * Z)) :
  ForallOrdPairs before rs -> pairwise_disjoint rs.
Proof.
  unfold pairwise_disjoint. induction 1 as [ | r rs Hr _ IH]; constructor.
  - eapply Forall_impl; [ | exact Hr]. intros r'. apply before_not_overlap.
  - exact IH.
Qed.

(** X5: without wrap-around the regions returned after an initialisation
    are pairwise disjoint and lie inside the buffer. *)
Lemma regions_disjoint_without_wrap (st : state) (buffer length : Z)
      (reqs : list (Z * Z)) :
  0 <= length < modulus w ->
  Forall (request_fits w length) reqs ->
  pairwise_disjoint (regions_of w (sail_arena_init st buffer length) reqs) /\
  Forall (within length) (regions_of w (sail_arena_init st buffer length) reqs).
Proof.
  intros Hl Hfits.
  destruct (regions_of_layout reqs (sail_arena_init st buffer length))
    as [Hin Hord].
  - unfold arena_inv. cbn. lia.
  - cbn. lia.
  - exact Hfits.
  - split; [apply ordpairs_before_disjoint, Hord | ].
    eapply Forall_impl; [ | exact Hin].
    cbn [sail_arena_init sail_arena_offset sail_arena_length].
    intros r Hr. unfold within. lia.
Qed.

(** ** The eight-byte scenario *)

Lemma spec_rounded_offset_aligned (st : state) (align : Z) :
  (sail_arena_buffer st + sail_arena_offset st) mod align = 0 ->
  spec_rounded_offset st align = sail_arena_offset st.
Proof.
  intros H. unfold spec_rounded_offset, round_up. rewrite H. cbn [Z.eqb]. ring.
Qed.

(** C8: an arena of 8 bytes at a base [B] that is a multiple of 4.  The
    first call returns [B] for 3 bytes and leaves offset 3; the second pads
    to offset 4, returns the address 4 bytes after [B] for 4 bytes and
    leaves offset 8; [sail_malloc] of 1 byte then returns [NULL] and the
    offset stays 8; after a reset the first call returns [B] again. *)
Theorem scenario_eight_bytes (st : state) (B : Z) :
  4 <= w ->
  0 <= B < modulus w ->
  B mod 4 = 0 ->
  let s0 := sail_arena_init st B 8 in
  let s3 := set_offset s0 3 in
  let s8 := set_offset s0 8 in
  sail_malloc_align w s0 3 4 = (Some B, s3) /\
  rounded_offset w s3 4 = 4 /\
  sail_malloc_align w s3 4 4 = (Some (uadd w B 4), s8) /\
  region_start w s3 (uadd w B 4) = 4 /\
  (B + 8 <= modulus w -> uadd w B 4 = B + 4) /\
  sail_malloc w None s8 1 = (None, s8) /\
  sail_arena_offset (sail_arena_reset s8) = 0 /\
  sail_malloc_align w (sail_arena_reset s8) 3 4 = (Some B, s3).
Proof.
  intros Hw HB Hal s0 s3 s8.
  assert (HM : 16 <= modulus w).
  { unfold modulus. change 16 with (2 ^ 4). apply Z.pow_le_mono_r; lia. }
  assert (R0 : spec_rounded_offset s0 4 = 0).
  { apply (spec_rounded_offset_aligned s0). cbn. rewrite Z.add_0_r. exact Hal. }
  assert (R3 : spec_rounded_offset s3 4 = 4).
  { unfold spec_rounded_offset, round_up. cbn [s3 s0 sail_arena_init set_offset
      sail_arena_buffer sail_arena_offset].
    rewrite Z.add_mod, Hal by lia. cbn. ring. }
  assert (R8 : spec_rounded_offset s8 4 = 8).
  { apply (spec_rounded_offset_aligned s8). cbn.
    rewrite Z.add_mod, Hal by lia. reflexivity. }
  assert (First : sail_malloc_align w s0 3 4 = (Some B, s3)).
  { rewrite (sail_malloc_align_fits s0 3 4 2); try reflexivity;
      rewrite ?R0; cbn; try lia.
    unfold uadd. rewrite Z.add_0_r, wrap_small by lia. reflexivity. }
  repeat apply conj.
  - exact First.
  - transitivity (spec_rounded_offset s3 4); [ | exact R3].
    apply (rounded_offset_exact s3 2); [lia | cbn; lia | ].
    change (2 ^ 2) with 4. rewrite R3. lia.
  - rewrite (sail_malloc_align_fits s3 4 4 2); try reflexivity;
      rewrite ?R3; cbn; try lia.
    reflexivity.
  - apply (region_start_uadd s3 4). lia.
  - intros Hend. unfold uadd. apply wrap_small. lia.
  - unfold sail_malloc. cbn [SAIL_ARENA_ALIGNMENT].
    apply (sail_malloc_align_no_space s8 1 4 2); try reflexivity;
      rewrite ?R8; cbn; lia.
  - reflexivity.
  - exact First.
Qed.

(** * Further properties of the allocator *)

(** ** A single call whose arithmetic does not wrap *)

(** X1: in an arena whose buffer is a real object (not at address 0, its
    end below [2^w]), when rounded offset plus size is representable the
    caller receives the null pointer exactly when that sum exceeds the
    length, and whenever it receives the null pointer the state is the one
    the call was made in. *)
Theorem out_of_space_iff (st : state) (size k : Z) :
  0 <= k < w ->
  arena_inv st ->
  0 <= size ->
  0 < sail_arena_buffer st ->
  sail_arena_buffer st + sail_arena_length st < modulus w ->
  spec_rounded_offset st (2 ^ k) + size < modulus w ->
  (c_return (fst (sail_malloc_align w st size (2 ^ k))) = NULL <->
   sail_arena_length st < spec_rounded_offset st (2 ^ k) + size) /\
  (c_return (fst (sail_malloc_align w st size (2 ^ k))) = NULL ->
   snd (sail_malloc_align w st size (2 ^ k)) = st) /\
  (c_return (fst (sail_malloc_align w st size (2 ^ k))) = NULL <->
   fst (sail_malloc_align w st size (2 ^ k)) = None).
Proof.
  intros Hk [Ho Hol] Hs Hb Hend Hrep.
  pose proof (spec_rounded_offset_bounds st k ltac:(lia)) as Hr.
  destruct (Z_le_gt_dec (spec_rounded_offset st (2 ^ k) + size)
                        (sail_arena_length st)) as [Hfit | Hbig].
  - rewrite (sail_malloc_align_fits st size (2 ^ k) k) by (reflexivity || lia).
    cbn [fst snd c_return].
    assert (Hnn : uadd w (sail_arena_buffer st)
                       (spec_rounded_offset st (2 ^ k)) <> NULL).
    { unfold uadd, NULL. rewrite wrap_small by lia. lia. }
    repeat split; intros H; try contradiction; try discriminate; lia.
  - rewrite (sail_malloc_align_no_space st size (2 ^ k) k) by (reflexivity || lia).
    cbn [fst snd c_return]. repeat split; intros H; (reflexivity || lia).
Qed.

(** X2: a pointer returned for a request that cannot wrap, from a buffer
    that is a real object (not at address 0, its end inside the address
    space), addresses [size] bytes that all lie in the unused part of the
    buffer; it is not the null pointer, and the new offset is the end of
    the region. *)
Theorem returned_region_inside_buffer (st st' : state) (size k ptr : Z) :
  0 <= k < w ->
  arena_inv st ->
  0 <= size ->
  0 < sail_arena_buffer st ->
  sail_arena_buffer st + sail_arena_length st < modulus w ->
  sail_arena_length st + 2 ^ k + size <= modulus w ->
  sail_malloc_align w st size (2 ^ k) = (Some ptr, st') ->
  sail_arena_buffer st + sail_arena_offset st <= ptr /\
  ptr + size <= sail_arena_buffer st + sail_arena_length st /\
  ptr <> NULL /\
  sail_arena_offset st' = ptr - sail_arena_buffer st + size.
Proof.
  intros Hk [Ho Hol] Hs Hb Hend Hrep.
  pose proof (spec_rounded_offset_bounds st k ltac:(lia)) as Hr.
  pose proof (pow2_pos k ltac:(lia)) as Hp.
  destruct (Z_le_gt_dec (spec_rounded_offset st (2 ^ k) + size)
                        (sail_arena_length st)) as [Hfit | Hbig].
  - rewrite (sail_malloc_align_fits st size (2 ^ k) k) by (reflexivity || lia).
    intros H. injection H as <- <-.
    unfold uadd, NULL. rewrite wrap_small by lia.
    cbn [sail_arena_offset set_offset]. lia.
  - rewrite (sail_malloc_align_no_space st size (2 ^ k) k) by (reflexivity || lia).
    discriminate.
Qed.

(** X3: for a request that cannot wrap, the region starts at the old
    offset or less than [align] bytes after it, the new offset is the end
    of the region, and the offset has not decreased. *)
Theorem padding_less_than_alignment (st st' : state) (size k ptr : Z) :
  0 <= k < w ->
  arena_inv st ->
  0 <= size ->
  sail_arena_length st + 2 ^ k + size <= modulus w ->
  sail_malloc_align w st size (2 ^ k) = (Some ptr, st') ->
  sail_arena_offset st <= region_start w st ptr < sail_arena_offset st + 2 ^ k /\
  sail_arena_offset st' = region_start w st ptr + size /\
  sail_arena_offset st <= sail_arena_offset st'.
Proof.
  intros Hk [Ho Hol] Hs Hrep.
  pose proof (spec_rounded_offset_bounds st k ltac:(lia)) as Hr.
  pose proof (pow2_pos k ltac:(lia)) as Hp.
  destruct (Z_le_gt_dec (spec_rounded_offset st (2 ^ k) + size)
                        (sail_arena_length st)) as [Hfit | Hbig].
  - rewrite (sail_malloc_align_fits st size (2 ^ k) k) by (reflexivity || lia).
    intros H. injection H as <- <-.
    rewrite region_start_uadd by lia.
    cbn [sail_arena_offset set_offset]. lia.
  - rewrite (sail_malloc_align_no_space st size (2 ^ k) k) by (reflexivity || lia).
    discriminate.
Qed.

Lemma round_up_closed_form (a k : Z) :
  0 <= k -> round_up a (2 ^ k) = a + (- a) mod 2 ^ k.
Proof.
  intros Hk. pose proof (pow2_pos k Hk) as Hp. unfold round_up.
  destruct (a mod 2 ^ k =? 0) eqn:E.
  - apply Z.eqb_eq in E. rewrite Z.mod_opp_l_z by lia. lia.
  - apply Z.eqb_neq in E. rewrite Z.mod_opp_l_nz by lia. reflexivity.
Qed.

(** X4: the padding the rounding step adds is the residue of the negated
    address of the next free byte: whenever offset plus alignment is
    representable, the rounded offset is [offset + (-(buffer + offset) mod
    align)]; in particular an aligned address gets no padding. *)
Theorem rounded_offset_closed_form (st : state) (k : Z) :
  0 <= k < w ->
  0 <= sail_arena_offset st ->
  sail_arena_offset st + 2 ^ k <= modulus w ->
  rounded_offset w st (2 ^ k) =
    sail_arena_offset st
    + (- (sail_arena_buffer st + sail_arena_offset st)) mod 2 ^ k /\
  ((sail_arena_buffer st + sail_arena_offset st) mod 2 ^ k = 0 ->
   rounded_offset w st (2 ^ k) = sail_arena_offset st).
Proof.
  intros Hk Ho Hrep.
  pose proof (spec_rounded_offset_bounds st k ltac:(lia)) as Hr.
  pose proof (pow2_pos k ltac:(lia)) as Hp.
  assert (E : rounded_offset w st (2 ^ k) =
              sail_arena_offset st
              + (- (sail_arena_buffer st + sail_arena_offset st)) mod 2 ^ k).
  { rewrite rounded_offset_exact by lia.
    unfold spec_rounded_offset. rewrite round_up_closed_form by lia. ring. }
  split; [exact E | ].
  intros Hal. rewrite E, Z.mod_opp_l_z by lia. ring.
Qed.

(** X6: a request larger than what is left between the offset and the
    length is refused, whatever the alignment, and the state stays as it
    was (for a request that cannot wrap). *)
Theorem insufficient_space_refused (st : state) (size k : Z) :
  0 <= k < w ->
  arena_inv st ->
  sail_arena_length st + 2 ^ k + size <= modulus w ->
  sail_arena_length st - sail_arena_offset st < size ->
  sail_malloc_align w st size (2 ^ k) = (None, st).
Proof.
  intros Hk [Ho Hol] Hrep Hbig.
  pose proof (spec_rounded_offset_bounds st k ltac:(lia)) as Hr.
  apply (sail_malloc_align_no_space st size (2 ^ k) k); (reflexivity || lia).
Qed.

(** ** What the calls leave alone *)

Lemma sail_malloc_align_frame (st : state) (size align : Z) :
  let st' := snd (sail_malloc_align w st size align) in
  sail_arena_buffer st' = sail_arena_buffer st /\
  sail_arena_length st' = sail_arena_length st /\
  heap st' = heap st.
Proof.
  rewrite sail_malloc_align_unfold. cbv zeta.
  destruct (_ <=? _); cbn; repeat apply conj; reflexivity.
Qed.

Lemma exec_frame (build : option Z) (st : state) (c : call) :
  not_init c ->
  sail_arena_buffer (exec w build st c) = sail_arena_buffer st /\
  sail_arena_length (exec w build st c) = sail_arena_length st /\
  heap (exec w build st c) = heap st.
Proof.
  destruct c as [buffer length | | size align | size | ptr];
    cbn [exec not_init]; intros Hc.
  - contradiction.
  - repeat apply conj; reflexivity.
  - apply sail_malloc_align_frame.
  - apply sail_malloc_align_frame.
  - repeat apply conj; reflexivity.
Qed.

Lemma run_frame (build : option Z) (cs : list call) :
  forall st,
    Forall not_init cs ->
    sail_arena_buffer (run w build st cs) = sail_arena_buffer st /\
    sail_arena_length (run w build st cs) = sail_arena_length st /\
    heap (run w build st cs) = heap st.
Proof.
  unfold run. induction cs as [ | c cs IH]; intros st Hcs; cbn [fold_left].
  - repeat apply conj; reflexivity.
  - inversion Hcs as [ | ? ? Hc Hrest]; subst.
    destruct (IH (exec w build st c) Hrest) as (Hb & Hl & Hh).
    destruct (exec_frame build st c Hc) as (Hb' & Hl' & Hh').
    repeat apply conj; congruence.
Qed.

Lemma run_heap (build : option Z) (cs : list call) :
  forall st, heap (run w build st cs) = heap st.
Proof.
  unfold run. induction cs as [ | c cs IH]; intros st; cbn [fold_left].
  - reflexivity.
  - rewrite IH. destruct c as [buffer length | | size align | size | ptr];
      cbn [exec]; try reflexivity; apply sail_malloc_align_frame.
Qed.

(** X7: after any sequence of allocations, frees and resets that follows
    an initialisation, a reset gives back exactly the state the
    initialisation produced, so every request is then answered as it would
    be in the fresh arena. *)
Theorem reset_restores_initial_state (build : option Z) (st : state)
        (buffer length : Z) (cs : list call) :
  Forall not_init cs ->
  sail_arena_reset (run w build (sail_arena_init st buffer length) cs)
    = sail_arena_init st buffer length /\
  (forall size align,
      sail_malloc_align w
        (sail_arena_reset (run w build (sail_arena_init st buffer length) cs))
        size align
      = sail_malloc_align w (sail_arena_init st buffer length) size align).
Proof.
  intros Hcs.
  assert (E : sail_arena_reset (run w build (sail_arena_init st buffer length) cs)
              = sail_arena_init st buffer length).
  { destruct (run_frame build cs (sail_arena_init st buffer length) Hcs)
      as (Hb & Hl & Hh).
    unfold sail_arena_reset, set_offset. rewrite Hb, Hl, Hh. reflexivity. }
  split; [exact E | ]. intros size align. rewrite E. reflexivity.
Qed.

(** X8: no sequence of calls changes a byte of memory, and an
    initialisation forgets whatever the arena was used for before it. *)
Theorem calls_never_write_memory (build : option Z) (st : state)
        (cs : list call) :
  heap (run w build st cs) = heap st /\
  (forall buffer length,
      sail_arena_init (run w build st cs) buffer length
      = sail_arena_init st buffer length).
Proof.
  split; [apply run_heap | ].
  intros buffer length. unfold sail_arena_init. rewrite run_heap. reflexivity.
Qed.

(** ** Capacity *)

Lemma regions_of_total (reqs : list (Z * Z)) :
  forall st,
    arena_inv st ->
    sail_arena_length st < modulus w ->
    Forall (request_fits w (sail_arena_length st)) reqs ->
    0 <= total_size (regions_of w st reqs)
      <= sail_arena_length st - sail_arena_offset st.
Proof.
  induction reqs as [ | [size align] reqs IH]; intros st Hinv Hl Hfits.
  - destruct Hinv. cbn. lia.
  - inversion Hfits as [ | ? ? Hreq Hrest]; subst.
    destruct Hreq as [Hs [k [Hk [Hal Hrep]]]]. cbn [fst snd] in Hs, Hal, Hrep.
    destruct Hinv as [Ho Hol].
    pose proof (spec_rounded_offset_bounds st k ltac:(lia)) as Hr.
    rewrite <- Hal in Hr.
    cbn [regions_of].
    destruct (Z_le_gt_dec (spec_rounded_offset st align + size)
                          (sail_arena_length st)) as [Hfit | Hbig].
    + rewrite (sail_malloc_align_fits st size align k) by (assumption || lia).
      cbn [total_size fold_right snd].
      specialize (IH (set_offset st (spec_rounded_offset st align + size))).
      cbn [sail_arena_offset sail_arena_length set_offset] in IH.
      fold (total_size
              (regions_of w (set_offset st (spec_rounded_offset st align + size))
                          reqs)).
      assert (Hinv' : arena_inv
                (set_offset st (spec_rounded_offset st align + size)))
        by (unfold arena_inv; cbn; lia).
      specialize (IH Hinv' Hl Hrest). lia.
    + rewrite (sail_malloc_align_no_space st size align k) by (assumption || lia).
      apply IH; [split; assumption | exact Hl | exact Hrest].
Qed.

(** X9: the sizes of the regions handed out after an initialisation add
    up to at most the length of the buffer (for requests that cannot
    wrap). *)
Theorem total_size_at_most_length (st : state) (buffer length : Z)
        (reqs : list (Z * Z)) :
  0 <= length < modulus w ->
  Forall (request_fits w length) reqs ->
  0 <= total_size (regions_of w (sail_arena_init st buffer length) reqs)
    <= length.
Proof.
  intros Hl Hfits.
  pose proof (regions_of_total reqs (sail_arena_init st buffer length)) as H.
  cbn [sail_arena_init sail_arena_offset sail_arena_length] in H.
  assert (Hinv : arena_inv (sail_arena_init st buffer length))
    by (unfold arena_inv; cbn; lia).
  specialize (H Hinv ltac:(lia) Hfits). lia.
Qed.

(** ** [sail_malloc] on sizes that are multiples of the alignment *)

Lemma sail_malloc_seq_packed (build : option Z) (k : Z) (sizes : list Z) :
  0 <= k < w ->
  SAIL_ARENA_ALIGNMENT build = 2 ^ k ->
  forall st,
    0 <= sail_arena_buffer st ->
    sail_arena_buffer st + sail_arena_length st < modulus w ->
    0 <= sail_arena_offset st ->
    (sail_arena_buffer st + sail_arena_offset st) mod 2 ^ k = 0 ->
    Forall (fun size => 0 <= size /\ size mod 2 ^ k = 0) sizes ->
    sail_arena_offset st + sum_sizes sizes <= sail_arena_length st ->
    sail_malloc_seq w build st sizes =
    (map Some (packed (sail_arena_buffer st + sail_arena_offset st) sizes),
     set_offset st (sail_arena_offset st + sum_sizes sizes)).
Proof.
  intros Hk Hbuild. pose proof (pow2_pos k ltac:(lia)) as Hp.
  induction sizes as [ | size sizes IH]; intros st Hb Hend Ho Hal Hsizes Hsum.
  - cbn. rewrite Z.add_0_r, set_offset_same. reflexivity.
  - inversion Hsizes as [ | ? ? [Hs Hmul] Hrest]; subst.
    cbn [sum_sizes fold_right] in Hsum. fold (sum_sizes sizes) in Hsum.
    assert (Hsum0 : 0 <= sum_sizes sizes).
    { clear - Hrest. unfold sum_sizes.
      induction Hrest as [ | x l [Hx _] _ IHl]; cbn [fold_right]; lia. }
    pose proof (spec_rounded_offset_aligned st (2 ^ k) Hal) as R.
    cbn [sail_malloc_seq]. unfold sail_malloc. rewrite Hbuild.
    rewrite (sail_malloc_align_fits st size (2 ^ k) k)
      by (reflexivity || rewrite ?R; lia).
    rewrite R. unfold uadd at 1. rewrite wrap_small by lia.
    rewrite (IH (set_offset st (sail_arena_offset st + size)));
      cbn [sail_arena_buffer sail_arena_length sail_arena_offset set_offset];
      try lia; try assumption.
    + cbn [map packed sum_sizes fold_right]. fold (sum_sizes sizes).
      unfold set_offset. cbn.
      rewrite !Z.add_assoc. reflexivity.
    + rewrite Z.add_assoc, Z.add_mod, Hal, Hmul by lia. reflexivity.
Qed.

(** X10: on a buffer whose base is a multiple of the build's alignment,
    [sail_malloc] calls whose sizes are multiples of that alignment and add
    up to at most the length all return a pointer, the regions follow one
    another from the base without padding, and the final offset is the sum
    of the sizes. *)
Theorem sail_malloc_packs_aligned_sizes (build : option Z) (st : state)
        (buffer length k : Z) (sizes : list Z) :
  0 <= k < w ->
  SAIL_ARENA_ALIGNMENT build = 2 ^ k ->
  0 <= buffer ->
  0 <= length ->
  buffer + length < modulus w ->
  buffer mod 2 ^ k = 0 ->
  Forall (fun size => 0 <= size /\ size mod 2 ^ k = 0) sizes ->
  sum_sizes sizes <= length ->
  sail_malloc_seq w build (sail_arena_init st buffer length) sizes =
  (map Some (packed buffer sizes),
   set_offset (sail_arena_init st buffer length) (sum_sizes sizes)).
Proof.
  intros Hk Hbuild Hb Hl Hend Hal Hsizes Hsum.
  rewrite (sail_malloc_seq_packed build k sizes Hk Hbuild);
    cbn [sail_arena_init sail_arena_buffer sail_arena_length sail_arena_offset];
    rewrite ?Z.add_0_r; try lia; try assumption.
  reflexivity.
Qed.

(** ** Outside the documented use *)

Lemma all_ones_mask (a : Z) :
  0 <= a < modulus w -> Z.land a (usub w 0 1) = a.
Proof.
  intros Ha. pose proof modulus_pos as HM.
  assert (E : usub w 0 1 = Z.ones w).
  { unfold usub, wrap. rewrite Z.ones_equiv. fold (modulus w).
    replace (0 - 1) with (Z.pred (modulus w) + (-1) * modulus w) by lia.
    rewrite Z.mod_add by lia. apply Z.mod_small. lia. }
  rewrite E, Z.land_ones by lia. apply Z.mod_small. exact Ha.
Qed.

(** X11: with alignment 0, unless the next free byte is at address 0, the
    pointer the call returns when the bounds test passes is the null
    pointer, and the offset is overwritten all the same. *)
Theorem zero_alignment_returns_null (st st' : state) (size ptr : Z) :
  uadd w (sail_arena_buffer st) (sail_arena_offset st) <> 0 ->
  sail_malloc_align w st size 0 = (Some ptr, st') ->
  ptr = NULL /\
  sail_arena_offset st' = uadd w (usub w 0 (sail_arena_buffer st)) size.
Proof.
  intros Ha. pose proof modulus_pos as HM.
  assert (R : rounded_offset w st 0 = usub w 0 (sail_arena_buffer st)).
  { unfold rounded_offset.
    set (a := uadd w (sail_arena_buffer st) (sail_arena_offset st)) in *.
    assert (Hr : 0 <= a < modulus w) by apply wrap_range.
    rewrite all_ones_mask by exact Hr.
    apply Z.eqb_neq in Ha. rewrite Ha. cbn [negb].
    f_equal. change (usub w 0 a) with (wrap w (0 - a)).
    rewrite uadd_wrap_r. replace (a + (0 - a)) with 0 by ring.
    apply wrap_small. lia. }
  rewrite sail_malloc_align_unfold. cbv zeta. rewrite R.
  destruct (_ <=? _); [ | discriminate ].
  intros H. injection H as <- <-. cbn [sail_arena_offset set_offset].
  split; [ | reflexivity ].
  change (usub w 0 (sail_arena_buffer st))
    with (wrap w (0 - sail_arena_buffer st)).
  rewrite uadd_wrap_r.
  replace (sail_arena_buffer st + (0 - sail_arena_buffer st)) with 0 by ring.
  unfold NULL. apply wrap_small. lia.
Qed.

(** X12: the bounds test adds in [size_t]: from every state whose rounded
    offset [r] is not 0, the request of [2^w - r] bytes passes the test,
    returns the address at [r] and sets the offset to 0. *)
Theorem wrapping_request_accepted (st : state) (align : Z) :
  0 <= sail_arena_length st ->
  0 < rounded_offset w st align ->
  sail_malloc_align w st (modulus w - rounded_offset w st align) align =
  (Some (uadd w (sail_arena_buffer st) (rounded_offset w st align)),
   set_offset st 0) /\
  sail_arena_offset
    (snd (sail_malloc_align w st (modulus w - rounded_offset w st align)
                            align)) = 0.
Proof.
  intros Hl Hr. pose proof modulus_pos as HM.
  enough (E0 : sail_malloc_align w st
                 (modulus w - rounded_offset w st align) align =
               (Some (uadd w (sail_arena_buffer st)
                             (rounded_offset w st align)),
                set_offset st 0))
    by (split; [exact E0 | rewrite E0; reflexivity]).
  rewrite sail_malloc_align_unfold. cbv zeta.
  assert (E : uadd w (rounded_offset w st align)
                   (modulus w - rounded_offset w st align) = 0).
  { unfold uadd, wrap.
    replace (rounded_offset w st align
             + (modulus w - rounded_offset w st align))
      with (modulus w) by ring.
    apply Z.mod_same. lia. }
  rewrite E.
  destruct (Z.leb_spec 0 (sail_arena_length st)); [reflexivity | lia].
Qed.

End Words.

(** * Closed examples on a 64-bit machine *)

(** ** Requests whose end is not representable *)

(** C1: in an 8-byte arena the second request below, of [2^64 - 4] bytes,
    passes the bounds test because [4 + (2^64 - 4)] wraps to 0; all three
    calls return a pointer, the second region leaves the buffer, and the
    third region is the first one again. *)
Theorem wrapped_bounds_test_overlap :
  let st := sail_arena_init (mkState 0 0 0 zero_heap) 4096 8 in
  let reqs := [(4, 4); (2 ^ 64 - 4, 4); (4, 4)] in
  all_succeed 64 st reqs = true /\
  regions_of 64 st reqs = [(0, 4); (4, 2 ^ 64 - 4); (0, 4)] /\
  ~ pairwise_disjoint (regions_of 64 st reqs) /\
  ~ Forall (within 8) (regions_of 64 st reqs).
Proof.
  intros st reqs.
  assert (E : regions_of 64 st reqs = [(0, 4); (4, 2 ^ 64 - 4); (0, 4)])
    by (vm_compute; reflexivity).
  split; [vm_compute; reflexivity | ].
  split; [exact E | ].
  rewrite E. split.
  - intros H. inversion H as [ | r rs Hfirst _]; subst.
    inversion Hfirst as [ | ? ? _ Hrest]; subst.
    inversion Hrest as [ | ? ? Hthird _]; subst.
    apply Hthird. exists 0. unfold in_region. cbn. lia.
  - intros H. inversion H as [ | ? ? _ Hrest]; subst.
    inversion Hrest as [ | ? ? Hsecond _]; subst.
    unfold within in Hsecond. cbn [fst snd] in Hsecond.
    assert (8 < 4 + (2 ^ 64 - 4)) by (vm_compute; reflexivity). lia.
Qed.

(** C3: with offset 4 in an 8-byte arena a request of [2^64 - 4] bytes
    has rounded offset 4, so rounded offset plus size is [2^64] and
    exceeds the length 8; the call nevertheless returns a pointer, 4 bytes
    into the buffer, and sets the offset to 0. *)
Theorem wrapped_bounds_test_accepts :
  let st := mkState 4096 8 4 zero_heap in
  arena_inv st /\
  spec_rounded_offset st 4 = 4 /\
  rounded_offset 64 st 4 = 4 /\
  sail_arena_length st < spec_rounded_offset st 4 + (2 ^ 64 - 4) /\
  sail_malloc_align 64 st (2 ^ 64 - 4) 4 = (Some 4100, set_offset st 0) /\
  c_return (fst (sail_malloc_align 64 st (2 ^ 64 - 4) 4)) = 4100 /\
  sail_arena_offset st = 4 /\
  sail_arena_offset (snd (sail_malloc_align 64 st (2 ^ 64 - 4) 4)) = 0.
Proof.
  intros st. repeat apply conj; try (vm_compute; reflexivity).
  - unfold arena_inv. cbn. lia.
  - unfold arena_inv. cbn. lia.
Qed.

(** C10: with offset 3 in an 8-byte arena, the request of [2^64 - 1]
    bytes with alignment 1 returns a pointer, 3 bytes into the buffer,
    and the offset it stores is 2: not the old offset plus the size, and
    smaller than the old offset. *)
Theorem align_one_offset_wraps :
  let st := mkState 4096 8 3 zero_heap in
  let size := 2 ^ 64 - 1 in
  arena_inv st /\
  fst (sail_malloc_align 64 st size 1) = Some 4099 /\
  c_return (fst (sail_malloc_align 64 st size 1)) <> NULL /\
  region_start 64 st 4099 = sail_arena_offset st /\
  sail_arena_offset (snd (sail_malloc_align 64 st size 1)) = 2 /\
  sail_arena_offset (snd (sail_malloc_align 64 st size 1))
    <> sail_arena_offset st + size.
Proof.
  intros st size. repeat apply conj; try by_evaluation.
Qed.

(** ** Buffers that are not real objects *)

(** C9: the zero-size request is answered with the null pointer although
    the bounds test passes, in an arena initialised with a buffer at
    address 0, and in a full arena whose buffer ends at the top of the
    address space. *)
Lemma zero_size_returns_null :
  let at_zero := mkState 0 8 0 zero_heap in
  let at_top := mkState (2 ^ 64 - 8) 8 8 zero_heap in
  (arena_inv at_zero /\
   spec_rounded_offset at_zero (2 ^ 2) <= sail_arena_length at_zero /\
   fst (sail_malloc_align 64 at_zero 0 (2 ^ 2)) = Some 0 /\
   c_return (fst (sail_malloc_align 64 at_zero 0 (2 ^ 2))) = NULL) /\
  (arena_inv at_top /\
   spec_rounded_offset at_top (2 ^ 2) <= sail_arena_length at_top /\
   fst (sail_malloc_align 64 at_top 0 (2 ^ 2)) = Some 0 /\
   c_return (fst (sail_malloc_align 64 at_top 0 (2 ^ 2))) = NULL).
Proof.
  intros at_zero at_top. repeat apply conj; by_evaluation.
Qed.

(** ** Instances of the general theorems *)

Lemma sail_malloc_align_aligned_witness :
  0 <= 2 < 64 /\
  sail_malloc_align 64 (mkState 4097 16 2 zero_heap) 5 (2 ^ 2)
    = (Some 4100, mkState 4097 16 8 zero_heap) /\
  4100 mod 2 ^ 2 = 0.
Proof.
  assert (Hk : 0 <= 2 < 64) by lia.
  assert (Hcall : sail_malloc_align 64 (mkState 4097 16 2 zero_heap) 5 (2 ^ 2)
                  = (Some 4100, mkState 4097 16 8 zero_heap))
    by (vm_compute; reflexivity).
  split; [exact Hk | split; [exact Hcall | ] ].
  exact (sail_malloc_align_aligned 64 eq_refl _ _ 5 2 4100 Hk Hcall).
Defined.

Lemma sail_malloc_align_success_witness :
  let st := mkState 4097 16 2 zero_heap in
  arena_inv st /\
  spec_rounded_offset st (2 ^ 2) + 5 <= sail_arena_length st /\
  fst (sail_malloc_align 64 st 5 (2 ^ 2)) = Some 4100 /\
  sail_arena_offset (snd (sail_malloc_align 64 st 5 (2 ^ 2))) = 8.
Proof.
  intros st.
  assert (Hinv : arena_inv st) by (unfold arena_inv; cbn; lia).
  assert (Hfit : spec_rounded_offset st (2 ^ 2) + 5 <= sail_arena_length st)
    by (vm_compute; discriminate).
  split; [exact Hinv | split; [exact Hfit | ] ].
  destruct (sail_malloc_align_success 64 eq_refl st 5 2)
    as (_ & _ & _ & Hptr & Hoff & _);
    [lia | exact Hinv | vm_compute; reflexivity | lia | exact Hfit | ].
  split; [exact Hptr | exact Hoff].
Defined.

Lemma arena_inv_invariant_witness :
  arena_inv
    (run 64 None (sail_arena_init (mkState 0 0 0 zero_heap) 4096 8)
         [MallocAlign 3 4; MallocAlign (2 ^ 64 - 1) 1; Malloc 1; Reset;
          Free 4096; Malloc 8]).
Proof.
  apply (proj2 (proj2 (arena_inv_invariant 64 eq_refl None))).
  - lia.
  - repeat constructor.
Defined.

Lemma scenario_eight_bytes_witness :
  let s0 := sail_arena_init (mkState 0 0 0 zero_heap) 4096 8 in
  4096 mod 4 = 0 /\
  sail_malloc_align 64 s0 3 4 = (Some 4096, set_offset s0 3) /\
  sail_malloc_align 64 (set_offset s0 3) 4 4 = (Some 4100, set_offset s0 8) /\
  sail_malloc 64 None (set_offset s0 8) 1 = (None, set_offset s0 8) /\
  sail_malloc_align 64 (sail_arena_reset (set_offset s0 8)) 3 4
    = (Some 4096, set_offset s0 3).
Proof.
  intros s0.
  assert (Hw : 4 <= 64) by lia.
  assert (HB : 0 <= 4096 < modulus 64) by (vm_compute; split; [discriminate | reflexivity]).
  assert (Hal : 4096 mod 4 = 0) by reflexivity.
  pose proof (scenario_eight_bytes 64 eq_refl (mkState 0 0 0 zero_heap) 4096
                Hw HB Hal) as H.
  cbv zeta in H.
  destruct H as (H1 & _ & H2 & _ & _ & H3 & _ & H4).
  split; [exact Hal | ].
  split; [exact H1 | ].
  split; [exact H2 | ].
  split; [exact H3 | exact H4].
Defined.

Lemma sail_malloc_align_zero_size_witness :
  let st := mkState 4096 8 8 zero_heap in
  arena_inv st /\
  spec_rounded_offset st (2 ^ 2) <= sail_arena_length st /\
  fst (sail_malloc_align 64 st 0 (2 ^ 2)) = Some (4096 + 8) /\
  c_return (fst (sail_malloc_align 64 st 0 (2 ^ 2))) <> NULL /\
  snd (sail_malloc_align 64 st 0 (2 ^ 2)) = st.
Proof.
  intros st.
  assert (Hinv : arena_inv st) by (unfold arena_inv; cbn; lia).
  assert (Hfit : spec_rounded_offset st (2 ^ 2) <= sail_arena_length st)
    by (vm_compute; discriminate).
  split; [exact Hinv | split; [exact Hfit | ] ].
  destruct (sail_malloc_align_zero_size 64 eq_refl st 2)
    as (_ & Hnn & _ & _ & _ & _ & Hfull);
    [lia | exact Hinv | vm_compute; reflexivity | vm_compute; reflexivity
     | exact Hfit | ].
  destruct (Hfull eq_refl eq_refl) as [Hptr Hst].
  split; [exact Hptr | split; [exact Hnn | exact Hst] ].
Defined.

Lemma sail_malloc_align_one_witness :
  let st := mkState 4097 16 3 zero_heap in
  arena_inv st /\
  fst (sail_malloc_align 64 st 5 1) = Some 4100 /\
  rounded_offset 64 st 1 = 3 /\
  sail_arena_offset (snd (sail_malloc_align 64 st 5 1)) = 3 + 5.
Proof.
  intros st.
  assert (Hinv : arena_inv st) by (unfold arena_inv; cbn; lia).
  assert (Hl : sail_arena_length st < modulus 64) by (vm_compute; reflexivity).
  assert (Hcall : sail_malloc_align 64 st 5 1
                  = (Some 4100, snd (sail_malloc_align 64 st 5 1)))
    by (vm_compute; reflexivity).
  destruct (sail_malloc_align_one 64 eq_refl st
              (snd (sail_malloc_align 64 st 5 1)) 5 4100
              Hinv Hl Hcall) as (Hr & _ & _ & _ & Hsum).
  split; [exact Hinv | split; [by_evaluation | split; [exact Hr | ] ] ].
  apply Hsum. vm_compute. split; [discriminate | reflexivity].
Defined.

(** ** Instances of the further properties *)

Lemma out_of_space_iff_witness :
  let st := mkState 4096 8 8 zero_heap in
  sail_arena_length st < spec_rounded_offset st (2 ^ 2) + 1 /\
  c_return (fst (sail_malloc_align 64 st 1 (2 ^ 2))) = NULL /\
  snd (sail_malloc_align 64 st 1 (2 ^ 2)) = st.
Proof.
  intros st.
  assert (Hbig : sail_arena_length st < spec_rounded_offset st (2 ^ 2) + 1)
    by by_evaluation.
  split; [exact Hbig | ].
  destruct (out_of_space_iff 64 eq_refl st 1 2) as (Hiff & Hframe & _);
    [by_evaluation | by_evaluation | by_evaluation | by_evaluation
     | by_evaluation | by_evaluation | ].
  pose proof (proj2 Hiff Hbig) as Hnull.
  split; [exact Hnull | exact (Hframe Hnull)].
Defined.

Lemma returned_region_inside_buffer_witness :
  let st := mkState 4097 16 2 zero_heap in
  sail_malloc_align 64 st 5 (2 ^ 2) = (Some 4100, set_offset st 8) /\
  4097 + 2 <= 4100 /\ 4100 + 5 <= 4097 + 16 /\ 4100 <> NULL.
Proof.
  intros st.
  assert (Hcall : sail_malloc_align 64 st 5 (2 ^ 2)
                  = (Some 4100, set_offset st 8)) by by_evaluation.
  split; [exact Hcall | ].
  destruct (returned_region_inside_buffer 64 eq_refl st (set_offset st 8)
              5 2 4100) as (H1 & H2 & H3 & _);
    [by_evaluation | by_evaluation | by_evaluation | by_evaluation
     | by_evaluation | by_evaluation | exact Hcall | ].
  split; [exact H1 | split; [exact H2 | exact H3] ].
Defined.

Lemma padding_less_than_alignment_witness :
  let st := mkState 4097 16 2 zero_heap in
  sail_malloc_align 64 st 5 (2 ^ 2) = (Some 4100, set_offset st 8) /\
  2 <= region_start 64 st 4100 < 2 + 2 ^ 2.
Proof.
  intros st.
  assert (Hcall : sail_malloc_align 64 st 5 (2 ^ 2)
                  = (Some 4100, set_offset st 8)) by by_evaluation.
  split; [exact Hcall | ].
  refine (proj1 (padding_less_than_alignment 64 eq_refl st (set_offset st 8)
                   5 2 4100 _ _ _ _ Hcall)); by_evaluation.
Defined.

Lemma rounded_offset_closed_form_witness :
  rounded_offset 64 (mkState 4097 16 2 zero_heap) (2 ^ 2)
  = 2 + (- (4097 + 2)) mod 2 ^ 2.
Proof.
  refine (proj1 (rounded_offset_closed_form 64 eq_refl
                   (mkState 4097 16 2 zero_heap) 2 _ _ _)); by_evaluation.
Defined.

Lemma regions_disjoint_without_wrap_witness :
  let st := sail_arena_init (mkState 0 0 0 zero_heap) 4096 16 in
  let reqs := [(3, 2 ^ 2); (4, 2 ^ 2); (5, 2 ^ 0); (1, 2 ^ 3)] in
  regions_of 64 st reqs = [(0, 3); (4, 4); (8, 5)] /\
  pairwise_disjoint (regions_of 64 st reqs) /\
  Forall (within 16) (regions_of 64 st reqs).
Proof.
  intros st reqs. split; [by_evaluation | ].
  apply (regions_disjoint_without_wrap 64 eq_refl); [by_evaluation | ].
  repeat constructor; cbn [fst snd];
    try (intro; discriminate).
  - exists 2. by_evaluation.
  - exists 2. by_evaluation.
  - exists 0. by_evaluation.
  - exists 3. by_evaluation.
Defined.

Lemma insufficient_space_refused_witness :
  let st := mkState 4096 8 5 zero_heap in
  sail_arena_length st - sail_arena_offset st < 4 /\
  sail_malloc_align 64 st 4 (2 ^ 0) = (None, st).
Proof.
  intros st. split; [by_evaluation | ].
  apply (insufficient_space_refused 64 eq_refl st 4 0); by_evaluation.
Defined.

Lemma reset_restores_initial_state_witness :
  let st := mkState 0 0 0 zero_heap in
  sail_arena_reset
    (run 64 None (sail_arena_init st 4096 8)
         [MallocAlign 3 4; Malloc 4; Free 4096; Reset; Malloc 100])
  = sail_arena_init st 4096 8.
Proof.
  intros st.
  refine (proj1 (reset_restores_initial_state 64 None st 4096 8 _ _)).
  repeat constructor.
Defined.

Lemma total_size_at_most_length_witness :
  let st := sail_arena_init (mkState 0 0 0 zero_heap) 4096 16 in
  let reqs := [(3, 2 ^ 2); (4, 2 ^ 2); (5, 2 ^ 0); (1, 2 ^ 3)] in
  total_size (regions_of 64 st reqs) = 12 /\
  0 <= total_size (regions_of 64 st reqs) <= 16.
Proof.
  intros st reqs. split; [by_evaluation | ].
  apply (total_size_at_most_length 64 eq_refl); [by_evaluation | ].
  repeat constructor; cbn [fst snd];
    try (intro; discriminate).
  - exists 2. by_evaluation.
  - exists 2. by_evaluation.
  - exists 0. by_evaluation.
  - exists 3. by_evaluation.
Defined.

Lemma sail_malloc_packs_aligned_sizes_witness :
  let st := mkState 0 0 0 zero_heap in
  sail_malloc_seq 64 None (sail_arena_init st 4096 16) [4; 8; 4] =
  ([Some 4096; Some 4100; Some 4108],
   set_offset (sail_arena_init st 4096 16) 16).
Proof.
  intros st.
  apply (sail_malloc_packs_aligned_sizes 64 eq_refl None st 4096 16 2 [4; 8; 4]);
    try by_evaluation.
  repeat constructor; by_evaluation.
Defined.

Lemma zero_alignment_returns_null_witness :
  let st := mkState 4096 8 0 zero_heap in
  sail_malloc_align 64 st 4100 0 = (Some 0, set_offset st 4) /\
  0 = NULL.
Proof.
  intros st.
  assert (Hcall : sail_malloc_align 64 st 4100 0 = (Some 0, set_offset st 4))
    by by_evaluation.
  split; [exact Hcall | ].
  refine (proj1 (zero_alignment_returns_null 64 eq_refl st (set_offset st 4)
                   4100 0 _ Hcall)).
  by_evaluation.
Defined.

Lemma wrapping_request_accepted_witness :
  let st := mkState 4096 8 4 zero_heap in
  rounded_offset 64 st 4 = 4 /\
  sail_malloc_align 64 st (modulus 64 - rounded_offset 64 st 4) 4
  = (Some 4100, set_offset st 0) /\
  sail_arena_offset
    (snd (sail_malloc_align 64 st (modulus 64 - rounded_offset 64 st 4) 4))
  = 0.
Proof.
  intros st. split; [by_evaluation | ].
  apply (wrapping_request_accepted 64 eq_refl st 4); by_evaluation.
Defined.
